(** * Traffic forecast with customer adjustment: a model of [frontend.py]

    The script loads a traffic series, fits a Holt-Winters model with an
    external library, estimates a "traffic per customer" coefficient from
    the head and the tail of the series and applies a linearly growing
    correction to the raw forecast.

    Conventions of the model.
    - A float64 is [NaN] or an exact rational: rounding and infinities are
      not modelled, missing values are.
    - The four widget values are Python integers ([Z]).
    - A timestamp is a number of nanoseconds since the epoch, without time
      zone.
    - A Python exception is an [Err] result; what the script shows on the
      page is a trace of events.
    - The smoothing library is a parameter: a function from the series, the
      seasonal period and the number of steps to the forecast values.
    - A run starts from the parsed table: what lines 29-31 raise on a
      missing column, an unreadable date or a cell that is not a number is
      outside the model, and so are dates beyond the range of the library
      and a failure of the export on line 86.  Statements are therefore
      about what a run implies, not lists of every possible failure. *)

From Stdlib Require Import ZArith QArith Qminmax Lia Lqa List Bool.
From Stdlib Require Import Sorting.Sorted Sorting.Permutation Setoid.
From Stdlib Require Ascii String DecimalString DecimalZ DecimalPos.
Import ListNotations.

Open Scope Z_scope.

(** ** Floating-point values *)

Inductive float : Type :=
| NaN
| Fin (q : Q).

(** [np.isnan]. *)
Definition isnan (x : float) : bool :=
  match x with NaN => true | Fin _ => false end.

(** An integer used where a float is expected. *)
Definition of_int (z : Z) : float := Fin (inject_Z z).

Definition fsub (x y : float) : float :=
  match x, y with Fin a, Fin b => Fin (a - b) | _, _ => NaN end.

Definition fmul (x y : float) : float :=
  match x, y with Fin a, Fin b => Fin (a * b) | _, _ => NaN end.

(** [-x], used to state how the estimator answers to a change of sign. *)
Definition fneg (x : float) : float :=
  match x with Fin a => Fin (- a) | NaN => NaN end.

(** [x / h] for a float [x] and an integer [h]; the script only divides so
    under the test [h != 0]. *)
Definition fdiv_int (x : float) (h : Z) : float :=
  match x with Fin a => Fin (a / inject_Z h) | NaN => NaN end.

(** [x != 0]: true for a NaN. *)
Definition fne0 (x : float) : bool :=
  match x with NaN => true | Fin q => negb (Qeq_bool q 0) end.

(** One entry of [Series.clip(lower=0)]: a NaN stays a NaN. *)
Definition clip_lower0 (x : float) : float :=
  match x with
  | NaN => NaN
  | Fin q => if Qle_bool 0 q then Fin q else Fin 0
  end.

(** Numeric equality of two floats, a NaN matching only a NaN. *)
Definition feq (x y : float) : Prop :=
  match x, y with
  | NaN, NaN => True
  | Fin a, Fin b => a == b
  | _, _ => False
  end.

(** Order on floats: every comparison with a NaN is false. *)
Definition fle (x y : float) : Prop :=
  match x, y with Fin a, Fin b => (a <= b)%Q | _, _ => False end.

Definition flt (x y : float) : Prop :=
  match x, y with Fin a, Fin b => (a < b)%Q | _, _ => False end.

Definition finite (x : float) : Prop := isnan x = false.

(** ** Exceptions *)

Inductive exn : Type :=
| ValueError
| ZeroDivisionError
| AttributeError
| InsufficientDataError.

Inductive result (A : Type) : Type :=
| Ok (a : A)
| Err (e : exn).

Arguments Ok {A} a.
Arguments Err {A} e.

Definition bind {A B : Type} (m : result A) (k : A -> result B) : result B :=
  match m with Ok a => k a | Err e => Err e end.

Notation "x <- m ;; k" := (bind m (fun x => k))
  (at level 61, m at next level, right associativity).

(** Python's [a / b] on two integers. *)
Definition truediv (a b : Z) : result float :=
  if b =? 0 then Err ZeroDivisionError
  else Ok (Fin (inject_Z a / inject_Z b)).

(** ** The pandas and numpy operations the script uses *)

Definition Timestamp : Type := Z.

Definition DAY : Z := 86400 * 1000000000.

Definition Series : Type := list (Timestamp * float).

Definition index (s : Series) : list Timestamp := map fst s.
Definition values (s : Series) : list float := map snd s.

(** [Series.sort_index()]: ascending by timestamp, every row kept.  Rows
    with equal timestamps stay in their order here; the library does not
    promise an order among them, and nothing below relies on one. *)
Fixpoint insert_row (r : Timestamp * float) (s : Series) : Series :=
  match s with
  | [] => [r]
  | r' :: s' => if fst r <=? fst r' then r :: r' :: s' else r' :: insert_row r s'
  end.

Fixpoint sort_index (s : Series) : Series :=
  match s with
  | [] => []
  | r :: s' => insert_row r (sort_index s')
  end.

(** [Index.max()]: [None] is NaT, the answer on an empty index. *)
Definition index_max (ix : list Timestamp) : option Timestamp :=
  match ix with
  | [] => None
  | t :: ts => Some (fold_left Z.max ts t)
  end.

(** [Timestamp.normalize()]: midnight of the same day. *)
Definition normalize (t : Timestamp) : Timestamp := t - t mod DAY.

(** [pd.date_range(start, periods=n, freq="D")]; a negative count gives no
    date here, and no statement below uses a negative count. *)
Definition date_range (start : Timestamp) (periods : Z) : list Timestamp :=
  map (fun k => start + Z.of_nat k * DAY) (seq 0 (Z.to_nat periods)).

(** [np.arange(lo, hi)] on integers. *)
Definition arange (lo hi : Z) : list Z :=
  map (fun k => lo + Z.of_nat k) (seq 0 (Z.to_nat (hi - lo))).

(** [Series.head(n)] and [Series.tail(n)] for a count [n >= 0]. *)
Definition head {A : Type} (n : nat) (l : list A) : list A := firstn n l.
Definition tail {A : Type} (n : nat) (l : list A) : list A :=
  skipn (length l - n) l.

(** [Series.mean()], which skips missing values: the values are summed with
    each NaN replaced by 0 and divided by the number of values that are
    not NaN; the mean is NaN when there is none. *)
Definition count_notna (l : list float) : nat :=
  length (filter (fun x => negb (isnan x)) l).

Definition fillna0 (x : float) : Q :=
  match x with NaN => 0 | Fin q => q end.

Definition sum_fill0 (l : list float) : Q :=
  fold_left (fun acc x => acc + fillna0 x)%Q l 0%Q.

Definition mean (l : list float) : float :=
  let count := count_notna l in
  if (0 <? count)%nat then Fin (sum_fill0 l / inject_Z (Z.of_nat count))
  else NaN.

(** Elementwise [a - b] on two one-dimensional arrays, with numpy's
    broadcasting of an array of length one. *)
Fixpoint zip_sub (a b : list float) : list float :=
  match a, b with
  | x :: a', y :: b' => fsub x y :: zip_sub a' b'
  | _, _ => []
  end.

Definition np_sub (a b : list float) : result (list float) :=
  if (length a =? length b)%nat then Ok (zip_sub a b)
  else match a, b with
       | [x], _ => Ok (map (fun y => fsub x y) b)
       | _, [y] => Ok (map (fun x => fsub x y) a)
       | _, _ => Err ValueError
       end.

(** [df[col] = arr] on a frame of [n] rows: the lengths must agree. *)
Definition set_column (n : nat) (arr : list float) : result (list float) :=
  if (length arr =? n)%nat then Ok arr else Err ValueError.

(** ** Customer sensitivity estimator (lines 46-53) *)

Definition traffic_per_customer (series : list float) (HIST_CUSTOMER_DROP : Z)
  : float :=
  let start_mean := mean (head 14 series) in
  let end_mean := mean (tail 14 series) in
  if negb (isnan start_mean) && negb (isnan end_mean) then
    let change := fsub start_mean end_mean in
    if negb (HIST_CUSTOMER_DROP =? 0) then fdiv_int change HIST_CUSTOMER_DROP
    else of_int 0
  else Fin 0.

(** ** Forecast adjuster (lines 56-62) *)

(** [adjustment], the array subtracted from the raw forecast. *)
Definition adjustment (FORECAST_CUSTOMER_DROP FORECAST_DAYS : Z)
  (tpc : float) : result (list float) :=
  daily_change <- truediv FORECAST_CUSTOMER_DROP FORECAST_DAYS ;;
  let cum_change :=
    map (fun i => fmul (of_int i) daily_change) (arange 1 (FORECAST_DAYS + 1)) in
  Ok (map (fun c => fmul c tpc) cum_change).

(** The test of line 57. *)
Definition signal (FORECAST_CUSTOMER_DROP : Z) (tpc : float) : bool :=
  negb (FORECAST_CUSTOMER_DROP =? 0) && fne0 tpc.

(** The column [Adjusted] computed from the column [Forecast_raw]. *)
Definition adjust (Forecast_raw : list float)
  (FORECAST_CUSTOMER_DROP FORECAST_DAYS : Z) (tpc : float)
  : result (list float) :=
  let Adjusted := Forecast_raw in
  if signal FORECAST_CUSTOMER_DROP tpc then
    adj <- adjustment FORECAST_CUSTOMER_DROP FORECAST_DAYS tpc ;;
    diff <- np_sub Forecast_raw adj ;;
    Adjusted <- set_column (length Forecast_raw) diff ;;
    Ok (map clip_lower0 Adjusted)
  else Ok Adjusted.

(** ** The script (lines 27-92) *)

Record inputs : Type := {
  HIST_CUSTOMER_DROP : Z;
  FORECAST_CUSTOMER_DROP : Z;
  FORECAST_DAYS : Z;
  SEASONAL_PERIODS : Z
}.

(** [forecast_df], column by column. *)
Record frame : Type := {
  time_sec : list Timestamp;
  Forecast_raw : list float;
  Adjusted : list float
}.

(** One row of [output_df]; a column a row does not have holds NaN. *)
Record out_row : Type := {
  o_time_sec : Timestamp;
  o_Historical : float;
  o_Forecast_raw : float;
  o_Adjusted : float
}.

Record outcome : Type := {
  series : Series;
  forecast_df : frame;
  coefficient : float;
  output_df : list out_row
}.

(** What the page shows. *)
Inductive event : Type :=
| title
| subheader_chart
| pyplot (hist : Series) (fc : frame)
| subheader_download
| download_button (table : list out_row)
| write_coefficient (tpc : float)
| write_customers (n : Z).

(** [series.index.max().normalize()]: NaT has no [normalize]. *)
Definition last_hist_date (s : Series) : result Timestamp :=
  match index_max (index s) with
  | None => Err AttributeError
  | Some t => Ok (normalize t)
  end.

(** [pd.DataFrame({"time_sec": dates, "Forecast_raw": raw})]: the two
    columns must have one length. *)
Definition DataFrame (dates : list Timestamp) (raw : list float)
  : result (list Timestamp * list float) :=
  if (length dates =? length raw)%nat then Ok (dates, raw) else Err ValueError.

Definition hist_df (s : Series) : list out_row :=
  map (fun r => {| o_time_sec := fst r; o_Historical := snd r;
                   o_Forecast_raw := NaN; o_Adjusted := NaN |}) s.

Fixpoint forecast_rows (ts : list Timestamp) (raw adj : list float)
  : list out_row :=
  match ts, raw, adj with
  | t :: ts', r :: raw', a :: adj' =>
      {| o_time_sec := t; o_Historical := NaN;
         o_Forecast_raw := r; o_Adjusted := a |} :: forecast_rows ts' raw' adj'
  | _, _, _ => []
  end.

(** [pd.concat([hist_df, forecast_df], ignore_index=True)]. *)
Definition concat (s : Series) (fc : frame) : list out_row :=
  hist_df s ++ forecast_rows (time_sec fc) (Forecast_raw fc) (Adjusted fc).

Section Script.

(** [ExponentialSmoothing(series, trend="add", seasonal="add",
    seasonal_periods=sp).fit().forecast(steps).values]. *)
Variable forecaster : Series -> Z -> Z -> result (list float).

(** Lines 29-66: everything computed before the page is written. *)
Definition core (p : inputs) (rows : Series) : result outcome :=
  let series := sort_index rows in
  last <- last_hist_date series ;;
  forecast <- forecaster series (SEASONAL_PERIODS p) (FORECAST_DAYS p) ;;
  let forecast_dates := date_range (last + DAY) (FORECAST_DAYS p) in
  df <- DataFrame forecast_dates forecast ;;
  let tpc := traffic_per_customer (values series) (HIST_CUSTOMER_DROP p) in
  adjusted <- adjust (snd df) (FORECAST_CUSTOMER_DROP p) (FORECAST_DAYS p) tpc ;;
  let fc := {| time_sec := fst df; Forecast_raw := snd df;
               Adjusted := adjusted |} in
  Ok {| series := series; forecast_df := fc; coefficient := tpc;
        output_df := concat series fc |}.

(** The page: the events shown, and how the run ended. *)
Definition app (p : inputs) (uploaded_file : option Series)
  : list event * result unit :=
  match uploaded_file with
  | None => ([title], Ok tt)
  | Some rows =>
      match core p rows with
      | Err e => ([title], Err e)
      | Ok o =>
          ([title;
            subheader_chart; pyplot (series o) (forecast_df o);
            subheader_download; download_button (output_df o);
            write_coefficient (coefficient o);
            write_customers (FORECAST_CUSTOMER_DROP p)], Ok tt)
      end
  end.

End Script.

(** ** The summary line (line 92) *)

Module Format.
Import Ascii String.
Local Open Scope char_scope.

(** The decimal digits of a natural number, most significant first, as
    [str] writes them. *)
Definition digits (d : Decimal.uint) : list ascii :=
  list_ascii_of_string (DecimalString.NilZero.string_of_uint d).

(** A comma before every fourth digit, the digits taken from the right;
    [k] digits of the current group are already out. *)
Fixpoint commas_rev (k : nat) (l : list ascii) : list ascii :=
  match l with
  | [] => []
  | d :: l' =>
      if (k =? 3)%nat then "," :: d :: commas_rev 1 l'
      else d :: commas_rev (S k) l'
  end.

Definition group3 (ds : list ascii) : list ascii :=
  rev (commas_rev 0 (rev ds)).

(** [f"{n:,}"] on a Python integer. *)
Definition format_comma (n : Z) : string :=
  match Z.to_int n with
  | Decimal.Pos d => string_of_list_ascii (group3 (digits d))
  | Decimal.Neg d => String "-" (string_of_list_ascii (group3 (digits d)))
  end.

(** Reading a text back: the commas dropped, the rest read as a decimal
    integer. *)
Definition remove_commas (s : string) : string :=
  string_of_list_ascii
    (filter (fun a => negb (Ascii.eqb a ",")) (list_ascii_of_string s)).

Definition int_of_str (s : string) : option Z :=
  option_map Z.of_int (DecimalString.NilZero.int_of_string s).
End Format.

(** ** Definitions that follow the specification *)

(** Modelled from the spec: the check of the history length is made inside
    the smoothing library, which is not part of the source tree.  Section
    4.1 of the specification asks for at least [2 * seasonal_periods]
    observations and an InsufficientDataError otherwise; [hw] is the fit
    and forecast proper. *)
Definition seasonal_forecaster (hw : Series -> Z -> Z -> result (list float))
  (s : Series) (seasonal_periods steps : Z) : result (list float) :=
  if Z.of_nat (length s) <? 2 * seasonal_periods then Err InsufficientDataError
  else hw s seasonal_periods steps.

(** The estimator as section 4.2 words it. *)
Definition present (l : list float) : list Q :=
  flat_map (fun x => match x with NaN => [] | Fin q => [q] end) l.

Definition window_mean (l : list float) : option Q :=
  match present l with
  | [] => None
  | qs => Some (fold_right Qplus 0 qs / inject_Z (Z.of_nat (length qs)))%Q
  end.

Definition last_n {A : Type} (k : nat) (l : list A) : list A :=
  rev (firstn k (rev l)).

Definition sensitivity_spec (obs : list float) (h : Z) : float :=
  let k := Nat.min 14 (length obs) in
  match window_mean (firstn k obs), window_mean (last_n k obs) with
  | Some hd, Some tl => if h =? 0 then Fin 0 else Fin ((hd - tl) / inject_Z h)
  | _, _ => Fin 0
  end.

(** ** Sample data *)

(** The scenario of section 8 of the specification: sixty daily
    observations 100, 101, ..., 159, a seasonal period of 30, a horizon of
    10 days, a historical customer change of 100000 and a forecast customer
    change of 50000. *)
Definition history60 : Series :=
  map (fun k => (Z.of_nat k * DAY, of_int (100 + Z.of_nat k))) (seq 0 60).

Definition inputs60 : inputs :=
  {| HIST_CUSTOMER_DROP := 100000; FORECAST_CUSTOMER_DROP := 50000;
     FORECAST_DAYS := 10; SEASONAL_PERIODS := 30 |}.

(** A stand-in for the smoothing library in examples: the value of the
    last row of the series, repeated [steps] times. *)
Definition repeat_last (s : Series) (seasonal_periods steps : Z)
  : result (list float) :=
  match rev s with
  | [] => Err ValueError
  | r :: _ => Ok (repeat (snd r) (Z.to_nat steps))
  end.



(** * Properties *)

(** ** Floats *)

Lemma fne0_Fin (q : Q) : fne0 (Fin q) = true <-> ~ q == 0.
Proof.
  simpl. rewrite negb_true_iff. split.
  - intros H E. apply Qeq_bool_iff in E. congruence.
  - intros H. destruct (Qeq_bool q 0) eqn:E; [|reflexivity].
    apply Qeq_bool_iff in E. contradiction.
Qed.

Lemma fne0_false (x : float) : fne0 x = false <-> feq x (Fin 0).
Proof.
  destruct x as [|q]; simpl.
  - split; [discriminate | contradiction].
  - rewrite negb_false_iff. apply Qeq_bool_iff.
Qed.

Lemma clip_lower0_Fin (q : Q) :
  exists v, clip_lower0 (Fin q) = Fin v /\ v == Qmax 0 q.
Proof.
  simpl. destruct (Qle_bool 0 q) eqn:E.
  - exists q. split; [reflexivity|].
    apply Qle_bool_iff in E. symmetry. apply Q.max_r. exact E.
  - exists 0%Q. split; [reflexivity|].
    symmetry. apply Q.max_l.
    destruct (Qlt_le_dec q 0) as [L|L]; [apply Qlt_le_weak; exact L|].
    apply Qle_bool_iff in L. congruence.
Qed.

(** ** Arrays *)

Lemma arange_length (lo hi : Z) : length (arange lo hi) = Z.to_nat (hi - lo).
Proof. unfold arange. now rewrite length_map, length_seq. Qed.

Lemma arange_nth (lo hi : Z) (i : nat) :
  (i < Z.to_nat (hi - lo))%nat ->
  nth_error (arange lo hi) i = Some (lo + Z.of_nat i).
Proof.
  intros Hi. unfold arange.
  rewrite nth_error_map, nth_error_seq.
  destruct (Nat.ltb_spec i (Z.to_nat (hi - lo))); [reflexivity | lia].
Qed.

Lemma zip_sub_length (a b : list float) :
  length a = length b -> length (zip_sub a b) = length a.
Proof.
  revert b. induction a as [|x a IH]; intros [|y b] H; simpl in *;
    try reflexivity; try discriminate.
  f_equal. apply IH. now injection H.
Qed.

Lemma zip_sub_nth (a b : list float) (i : nat) (x y : float) :
  nth_error a i = Some x -> nth_error b i = Some y ->
  nth_error (zip_sub a b) i = Some (fsub x y).
Proof.
  revert b i. induction a as [|x' a IH]; intros [|y' b] [|i] Ha Hb;
    simpl in *; try discriminate.
  - now injection Ha as ->; injection Hb as ->.
  - now apply IH.
Qed.

(** What a successful subtraction followed by a successful assignment to
    the column computed, entry by entry. *)
Lemma np_sub_entry (a b d : list float) :
  np_sub a b = Ok d -> length d = length a ->
  forall i x, nth_error a i = Some x ->
    exists y, In y b /\ nth_error d i = Some (fsub x y).
Proof.
  unfold np_sub. intros H Hlen i x Hx.
  destruct (Nat.eqb_spec (length a) (length b)) as [E|E].
  - injection H as <-.
    assert (Hi : (i < length b)%nat).
    { rewrite <- E. apply nth_error_Some. congruence. }
    destruct (nth_error b i) as [y|] eqn:Hy;
      [|apply nth_error_None in Hy; lia].
    exists y. split; [eapply nth_error_In; eassumption|].
    now apply zip_sub_nth.
  - destruct a as [|x0 [|x1 a]].
    + destruct i; discriminate.
    + injection H as <-. rewrite length_map in Hlen. simpl in *. congruence.
    + destruct b as [|y [|y' b]]; try discriminate.
      injection H as <-. exists y. split; [now left|].
      change (nth_error (map (fun x2 => fsub x2 y) (x0 :: x1 :: a)) i
              = Some (fsub x y)).
      rewrite nth_error_map, Hx. reflexivity.
Qed.

(** ** The adjuster *)

Lemma adjustment_zero_days (FCD : Z) (tpc : float) :
  adjustment FCD 0 tpc = Err ZeroDivisionError.
Proof. reflexivity. Qed.

Lemma adjustment_ok (FCD FD : Z) (c : Q) :
  FD <> 0 ->
  adjustment FCD FD (Fin c) =
  Ok (map (fun i => Fin (inject_Z i * (inject_Z FCD / inject_Z FD) * c))
          (arange 1 (FD + 1))).
Proof.
  intros H. unfold adjustment, truediv.
  destruct (Z.eqb_spec FD 0) as [E|_]; [contradiction|].
  simpl. rewrite map_map. reflexivity.
Qed.

Lemma adjustment_total (FCD FD : Z) (tpc : float) :
  FD <> 0 ->
  exists l, adjustment FCD FD tpc = Ok l /\ length l = Z.to_nat FD.
Proof.
  intros H. unfold adjustment, truediv.
  destruct (Z.eqb_spec FD 0) as [E|_]; [contradiction|].
  simpl. eexists. split; [reflexivity|].
  rewrite !length_map, arange_length. f_equal. lia.
Qed.

Lemma signal_true (FCD : Z) (tpc : float) :
  signal FCD tpc = true <-> FCD <> 0 /\ fne0 tpc = true.
Proof.
  unfold signal. rewrite andb_true_iff, negb_true_iff, Z.eqb_neq. tauto.
Qed.

Lemma signal_false (FCD : Z) (tpc : float) :
  signal FCD tpc = false <-> FCD = 0 \/ feq tpc (Fin 0).
Proof.
  unfold signal.
  rewrite andb_false_iff, negb_false_iff, Z.eqb_eq, fne0_false. tauto.
Qed.

Lemma adjust_unfold (raw : list float) (FCD FD : Z) (tpc : float) :
  adjust raw FCD FD tpc =
  if signal FCD tpc then
    adj <- adjustment FCD FD tpc ;;
    diff <- np_sub raw adj ;;
    col <- set_column (length raw) diff ;;
    Ok (map clip_lower0 col)
  else Ok raw.
Proof. reflexivity. Qed.

(** With the signal present and the raw forecast as long as the horizon,
    the adjuster returns the clipped elementwise difference. *)
Lemma adjust_ok (raw : list float) (FCD FD : Z) (tpc : float) (adj : list float) :
  signal FCD tpc = true ->
  adjustment FCD FD tpc = Ok adj ->
  length raw = length adj ->
  adjust raw FCD FD tpc = Ok (map clip_lower0 (zip_sub raw adj)).
Proof.
  intros Hs Ha Hl. rewrite adjust_unfold, Hs, Ha. cbn [bind].
  unfold np_sub. rewrite Hl, Nat.eqb_refl. cbn [bind].
  unfold set_column. rewrite zip_sub_length by exact Hl.
  rewrite Hl, Nat.eqb_refl. reflexivity.
Qed.

(** A successful run of the adjuster with the signal present, read
    backwards. *)
Lemma adjust_ok_inv (raw : list float) (FCD FD : Z) (tpc : float)
  (out : list float) :
  signal FCD tpc = true ->
  adjust raw FCD FD tpc = Ok out ->
  exists adj diff,
    adjustment FCD FD tpc = Ok adj /\ np_sub raw adj = Ok diff /\
    length diff = length raw /\ out = map clip_lower0 diff.
Proof.
  intros Hs. rewrite adjust_unfold, Hs.
  destruct (adjustment FCD FD tpc) as [adj|e]; cbn [bind]; [|discriminate].
  destruct (np_sub raw adj) as [diff|e] eqn:Hd; cbn [bind]; [|discriminate].
  unfold set_column.
  destruct (Nat.eqb_spec (length diff) (length raw)) as [E|E]; cbn [bind];
    [|discriminate].
  intros H. injection H as <-. exists adj, diff. auto.
Qed.

Lemma adjustment_nth (FCD FD : Z) (c : Q) (l : list float) (i : nat) :
  adjustment FCD FD (Fin c) = Ok l ->
  (i < Z.to_nat FD)%nat ->
  nth_error l i =
  Some (Fin (inject_Z (1 + Z.of_nat i) * (inject_Z FCD / inject_Z FD) * c)).
Proof.
  intros H Hi. rewrite adjustment_ok in H by lia. injection H as <-.
  rewrite nth_error_map, arange_nth by lia. reflexivity.
Qed.

Lemma adjustment_entries_finite (FCD FD : Z) (c : Q) (l : list float) (y : float) :
  adjustment FCD FD (Fin c) = Ok l -> In y l -> exists q, y = Fin q.
Proof.
  intros H Hy. destruct (Z.eq_dec FD 0) as [->|N].
  - rewrite adjustment_zero_days in H. discriminate.
  - rewrite adjustment_ok in H by exact N. injection H as <-.
    apply in_map_iff in Hy. destruct Hy as (z & <- & _). eauto.
Qed.


(** ** Claims about the adjuster *)

(** C3. When [forecast_customer_change == 0] or the coefficient is 0 the
    adjuster returns the raw column itself: every adjusted value is the raw
    value, as the same value and not only up to a tolerance. *)
Theorem adjust_passthrough (raw : list float) (FCD FD : Z) (tpc : float) :
  FCD = 0 \/ feq tpc (Fin 0) -> adjust raw FCD FD tpc = Ok raw.
Proof.
  intros H. apply signal_false in H. now rewrite adjust_unfold, H.
Qed.

Lemma adjust_passthrough_witness :
  (0 = 0 \/ feq (Fin (1 # 2)) (Fin 0)) /\
  adjust [Fin (-5 # 1); Fin (7 # 2); NaN] 0 3 (Fin (1 # 2))
  = Ok [Fin (-5 # 1); Fin (7 # 2); NaN].
Proof.
  split; [left; reflexivity|].
  apply (adjust_passthrough [Fin (-5 # 1); Fin (7 # 2); NaN] 0 3 (Fin (1 # 2))).
  left; reflexivity.
Defined.


(** C1, as the code has it.  The claim itself fails: without a signal the
    adjusted column is the raw column, negative values included.  With a nonzero customer change and
    a nonzero coefficient every adjusted value computed from a raw value
    that is a number is at least 0; otherwise the adjusted column equals
    the raw one. *)
Theorem adjusted_nonneg_with_signal (raw : list float) (FCD FD : Z) (c : Q)
  (out : list float) :
  adjust raw FCD FD (Fin c) = Ok out ->
  (FCD <> 0 /\ ~ c == 0 ->
   forall i r, nth_error raw i = Some (Fin r) ->
     exists v, nth_error out i = Some (Fin v) /\ (0 <= v)%Q) /\
  (FCD = 0 \/ c == 0 -> out = raw).
Proof.
  intros H. split.
  - intros [H1 H2] i r Hr.
    assert (Hs : signal FCD (Fin c) = true).
    { apply signal_true. split; [exact H1 | now apply fne0_Fin]. }
    destruct (adjust_ok_inv _ _ _ _ _ Hs H) as (adj & diff & Ha & Hd & Hl & ->).
    destruct (np_sub_entry _ _ _ Hd Hl i _ Hr) as (y & Hy & Hi).
    destruct (adjustment_entries_finite _ _ _ _ _ Ha Hy) as (q & ->).
    destruct (clip_lower0_Fin (r - q)) as (v & Hv & Ev).
    exists v. split.
    + rewrite nth_error_map, Hi. cbn [option_map fsub]. now rewrite Hv.
    + rewrite Ev. apply Q.le_max_l.
  - intros Hz. rewrite adjust_passthrough in H by exact Hz. congruence.
Qed.

Lemma adjusted_nonneg_with_signal_witness :
  adjust [Fin (-5 # 1); Fin (7 # 2)] 4 2 (Fin (1 # 2))
  = Ok [Fin 0; Fin (12 # 8)] /\
  exists v, nth_error [Fin 0; Fin (12 # 8)] 1 = Some (Fin v) /\ (0 <= v)%Q.
Proof.
  assert (E : adjust [Fin (-5 # 1); Fin (7 # 2)] 4 2 (Fin (1 # 2))
              = Ok [Fin 0; Fin (12 # 8)]) by reflexivity.
  split; [exact E|].
  destruct (adjusted_nonneg_with_signal _ 4 2 (1 # 2) _ E) as [P _].
  assert (G : 4 <> 0 /\ ~ (1 # 2 == 0)%Q) by (split; discriminate).
  apply (P G 1%nat (7 # 2)%Q). reflexivity.
Defined.

(** C1, the claim as stated, fails: with [forecast_customer_change = 0]
    the raw value -5 is passed through as the adjusted value. *)
Lemma adjusted_negative_without_signal :
  adjust [Fin (-5 # 1)] 0 1 (Fin 1) = Ok [Fin (-5 # 1)] /\
  ~ fle (Fin 0) (Fin (-5 # 1)).
Proof.
  split; [reflexivity|]. simpl. lra.
Qed.

(** The adjusted column entry by entry, positions counted from 0. *)
Lemma adjust_entry (raw : list float) (FCD FD : Z) (c : Q) :
  FCD <> 0 -> ~ c == 0 -> 1 <= FD -> length raw = Z.to_nat FD ->
  exists out,
    adjust raw FCD FD (Fin c) = Ok out /\
    length out = length raw /\
    forall n r,
      nth_error raw n = Some (Fin r) ->
      exists v,
        nth_error out n = Some (Fin v) /\
        v == Qmax 0 (r - inject_Z (1 + Z.of_nat n)
                         * (inject_Z FCD / inject_Z FD) * c).
Proof.
  intros H1 H2 H3 Hl.
  assert (Hs : signal FCD (Fin c) = true).
  { apply signal_true. split; [exact H1 | now apply fne0_Fin]. }
  destruct (adjustment_total FCD FD (Fin c)) as (adj & Ha & Hlen); [lia|].
  exists (map clip_lower0 (zip_sub raw adj)). split; [|split].
  - apply adjust_ok; [exact Hs | exact Ha | congruence].
  - rewrite length_map, zip_sub_length; congruence.
  - intros n r Hr.
    assert (Hn : (n < Z.to_nat FD)%nat).
    { rewrite <- Hl. apply nth_error_Some. congruence. }
    apply (adjustment_nth FCD FD c adj n Ha) in Hn.
    destruct (clip_lower0_Fin
                (r - inject_Z (1 + Z.of_nat n)
                     * (inject_Z FCD / inject_Z FD) * c))
      as (v & Hv & Ev).
    exists v. split; [|exact Ev].
    rewrite nth_error_map, (zip_sub_nth _ _ _ _ _ Hr Hn).
    cbn [option_map fsub]. now rewrite Hv.
Qed.

(** C4. With a nonzero customer change, a nonzero coefficient and a raw
    forecast of [forecast_horizon_days >= 1] entries, the adjuster returns
    a column of that length whose entry for the period [i] (counted from 1)
    is [max(0, raw_i - i * (forecast_customer_change /
    forecast_horizon_days) * coefficient)]. *)
Theorem adjust_formula (raw : list float) (FCD FD : Z) (c : Q) :
  FCD <> 0 -> ~ c == 0 -> 1 <= FD -> length raw = Z.to_nat FD ->
  exists out,
    adjust raw FCD FD (Fin c) = Ok out /\
    length out = Z.to_nat FD /\
    forall i r,
      1 <= i <= FD ->
      nth_error raw (Z.to_nat (i - 1)) = Some (Fin r) ->
      exists v,
        nth_error out (Z.to_nat (i - 1)) = Some (Fin v) /\
        v == Qmax 0 (r - inject_Z i * (inject_Z FCD / inject_Z FD) * c).
Proof.
  intros H1 H2 H3 Hl.
  destruct (adjust_entry raw FCD FD c H1 H2 H3 Hl) as (out & Ho & Hlen & He).
  exists out. split; [exact Ho|]. split; [congruence|].
  intros i r Hi Hr. specialize (He _ _ Hr).
  replace (1 + Z.of_nat (Z.to_nat (i - 1))) with i in He by lia.
  exact He.
Qed.

Lemma adjust_formula_witness :
  exists out,
    adjust [Fin (-5 # 1); Fin (7 # 2)] 4 2 (Fin (1 # 2)) = Ok out /\
    length out = Z.to_nat 2 /\
    forall i r,
      1 <= i <= 2 ->
      nth_error [Fin (-5 # 1); Fin (7 # 2)] (Z.to_nat (i - 1)) = Some (Fin r) ->
      exists v,
        nth_error out (Z.to_nat (i - 1)) = Some (Fin v) /\
        v == Qmax 0 (r - inject_Z i * (inject_Z 4 / inject_Z 2) * (1 # 2)).
Proof.
  apply (adjust_formula [Fin (-5 # 1); Fin (7 # 2)] 4 2 (1 # 2)).
  - discriminate.
  - discriminate.
  - lia.
  - reflexivity.
Defined.




(** ** The estimator *)

Lemma head_window {A : Type} (k : nat) (l : list A) :
  head k l = firstn (Nat.min k (length l)) l.
Proof.
  unfold head. destruct (Nat.le_ge_cases (length l) k) as [H|H].
  - rewrite Nat.min_r by exact H. now rewrite !firstn_all2 by lia.
  - now rewrite Nat.min_l by exact H.
Qed.

Lemma tail_window {A : Type} (k : nat) (l : list A) :
  tail k l = last_n (Nat.min k (length l)) l.
Proof.
  unfold tail, last_n. rewrite firstn_rev, rev_involutive.
  f_equal. lia.
Qed.

Lemma count_notna_present (l : list float) :
  count_notna l = length (present l).
Proof.
  unfold count_notna, present.
  induction l as [|[|q] l IH]; simpl; [reflexivity | exact IH | now f_equal].
Qed.

Lemma sum_fill0_acc (l : list float) (acc : Q) :
  (fold_left (fun a x => a + fillna0 x) l acc
   == acc + fold_right Qplus 0 (present l))%Q.
Proof.
  revert acc. induction l as [|[|q] l IH]; intros acc; simpl.
  - lra.
  - rewrite IH. unfold present. lra.
  - rewrite IH. unfold present. lra.
Qed.

(** The mean of the library and the mean of the present values agree. *)
Lemma mean_window (l : list float) :
  match window_mean l with
  | None => mean l = NaN
  | Some m => exists m', mean l = Fin m' /\ m' == m
  end.
Proof.
  unfold window_mean, mean. rewrite count_notna_present.
  pose proof (sum_fill0_acc l 0%Q) as Hs. fold (sum_fill0 l) in Hs.
  destruct (present l) as [|q qs]; [reflexivity|].
  cbn [length Nat.ltb Nat.leb]. eexists. split; [reflexivity|].
  rewrite Hs. now rewrite Qplus_0_l.
Qed.

(** C2. The estimator of lines 46-53 computes the reference definition:
    with [head] and [tail] the means of the first and of the last
    [min(14, n)] observations, it returns 0 when the historical customer
    change is 0 or a mean is undefined, and [(head - tail) / h] otherwise. *)
Theorem traffic_per_customer_spec (obs : list float) (h : Z) :
  feq (traffic_per_customer obs h) (sensitivity_spec obs h).
Proof.
  unfold traffic_per_customer, sensitivity_spec.
  rewrite head_window, tail_window.
  set (k := Nat.min 14 (length obs)).
  pose proof (mean_window (firstn k obs)) as Hh.
  pose proof (mean_window (last_n k obs)) as Ht.
  destruct (window_mean (firstn k obs)) as [hd|];
    destruct (window_mean (last_n k obs)) as [tl|].
  - destruct Hh as (hd' & -> & Eh). destruct Ht as (tl' & -> & Et).
    cbn [isnan negb andb fsub]. destruct (h =? 0); cbn [negb].
    + simpl. reflexivity.
    + simpl. now rewrite Eh, Et.
  - destruct Hh as (hd' & -> & Eh). rewrite Ht. simpl. reflexivity.
  - rewrite Hh. simpl. reflexivity.
  - rewrite Hh. simpl. reflexivity.
Qed.

(** ** Ingestion *)

Lemma insert_row_perm (r : Timestamp * float) (s : Series) :
  Permutation (r :: s) (insert_row r s).
Proof.
  induction s as [|r' s IH]; simpl; [apply Permutation_refl|].
  destruct (fst r <=? fst r'); [apply Permutation_refl|].
  eapply perm_trans; [apply perm_swap|]. now apply perm_skip.
Qed.

Lemma sort_index_perm (s : Series) : Permutation s (sort_index s).
Proof.
  induction s as [|r s IH]; simpl; [constructor|].
  eapply perm_trans; [apply perm_skip, IH | apply insert_row_perm].
Qed.

Lemma sort_index_length (s : Series) : length (sort_index s) = length s.
Proof. symmetry. apply Permutation_length, sort_index_perm. Qed.

Lemma insert_row_sorted (r : Timestamp * float) (s : Series) :
  Sorted Z.le (index s) -> Sorted Z.le (index (insert_row r s)).
Proof.
  unfold index. induction s as [|r' s IH]; simpl; intros Hs.
  - repeat constructor.
  - inversion Hs as [|? ? Hs' Hhd]; subst.
    destruct (Z.leb_spec (fst r) (fst r')) as [L|L]; simpl.
    + constructor; [exact Hs|]. constructor. exact L.
    + constructor; [now apply IH|].
      destruct s as [|r'' s]; simpl in *.
      * constructor. lia.
      * destruct (fst r <=? fst r''); simpl; constructor;
          [lia | now inversion Hhd].
Qed.

Lemma sort_index_sorted (s : Series) : Sorted Z.le (index (sort_index s)).
Proof.
  induction s as [|r s IH]; simpl; [constructor|].
  now apply insert_row_sorted.
Qed.

Lemma strictly_sorted_NoDup (l : list Z) :
  StronglySorted Z.lt l -> NoDup l.
Proof.
  induction 1 as [|a l Hs IH Ha]; constructor; [|exact IH].
  intros Hin. rewrite Forall_forall in Ha. specialize (Ha _ Hin). lia.
Qed.

Lemma sorted_NoDup_strict (l : list Z) :
  StronglySorted Z.le l -> NoDup l -> StronglySorted Z.lt l.
Proof.
  induction 1 as [|a l Hs IH Ha]; intros Hn; constructor.
  - apply IH. now inversion Hn.
  - inversion Hn as [|? ? Hnotin Hn']; subst.
    rewrite Forall_forall in *. intros t Ht.
    specialize (Ha _ Ht). assert (t <> a) by congruence. lia.
Qed.

Lemma index_perm (s s' : Series) :
  Permutation s s' -> Permutation (index s) (index s').
Proof. apply Permutation_map. Qed.

(** ** Dates *)

Lemma DAY_pos : 0 < DAY.
Proof. reflexivity. Qed.

Lemma normalize_day (t : Timestamp) : normalize t = t / DAY * DAY.
Proof.
  unfold normalize, Timestamp. rewrite Z.mod_eq by discriminate. ring.
Qed.

Lemma date_range_length (start periods : Z) :
  length (date_range start periods) = Z.to_nat periods.
Proof. unfold date_range. now rewrite length_map, length_seq. Qed.

Lemma date_range_nth (start periods : Z) (i : nat) :
  (i < Z.to_nat periods)%nat ->
  nth_error (date_range start periods) i = Some (start + Z.of_nat i * DAY).
Proof.
  intros Hi. unfold date_range. rewrite nth_error_map, nth_error_seq.
  destruct (Nat.ltb_spec i (Z.to_nat periods)); [reflexivity | lia].
Qed.

Lemma fold_left_max_spec (ts : list Z) (t : Z) :
  let m := fold_left Z.max ts t in
  In m (t :: ts) /\ Forall (fun x => x <= m) (t :: ts).
Proof.
  revert t. induction ts as [|a ts IH]; intros t; simpl.
  - split; [now left | repeat constructor; lia].
  - destruct (IH (Z.max t a)) as [Hin Hall]. simpl in Hin.
    inversion Hall as [|? ? Hm Hts]; subst. split.
    + destruct Hin as [E|Hin]; [|now right; right].
      rewrite <- E. destruct (Z.max_spec t a) as [[_ ->]|[_ ->]]; auto.
    + constructor; [lia|]. constructor; [lia | exact Hts].
Qed.

Lemma index_max_spec (ix : list Timestamp) (m : Timestamp) :
  index_max ix = Some m <-> In m ix /\ Forall (fun t => t <= m) ix.
Proof.
  destruct ix as [|t ts]; simpl.
  - split; [discriminate | intros [[] _]].
  - pose proof (fold_left_max_spec ts t) as [Hin Hall]. split.
    + intros H. injection H as <-. now split.
    + intros [Hin' Hall'].
      rewrite Forall_forall in Hall, Hall'.
      specialize (Hall _ Hin'). specialize (Hall' _ Hin).
      assert (E : fold_left Z.max ts t = m) by (unfold Timestamp in *; lia).
      now rewrite E.
Qed.

Lemma index_max_perm (ix ix' : list Timestamp) :
  Permutation ix ix' -> index_max ix = index_max ix'.
Proof.
  intros P. destruct (index_max ix) as [m|] eqn:E.
  - symmetry. apply index_max_spec. apply index_max_spec in E.
    destruct E as [Hin Hall]. split.
    + eapply Permutation_in; eassumption.
    + eapply Permutation_Forall; eassumption.
  - destruct ix as [|t ts]; [|discriminate].
    apply Permutation_nil in P. now subst.
Qed.

(** C9, as the code has it.  The claim itself fails: [sort_index] sorts
    and removes nothing, so a timestamp uploaded twice is in the series
    twice.  The series handed on holds
    exactly the uploaded rows, in ascending order of timestamp; the order
    is strict, without duplicates, exactly when the uploaded timestamps are
    pairwise distinct. *)
Theorem ingestion_sorted (rows : Series) :
  Permutation rows (sort_index rows) /\
  StronglySorted Z.le (index (sort_index rows)) /\
  (NoDup (index rows) <-> StronglySorted Z.lt (index (sort_index rows))).
Proof.
  assert (Hs : StronglySorted Z.le (index (sort_index rows))).
  { apply Sorted_StronglySorted; [exact Z.le_trans | apply sort_index_sorted]. }
  pose proof (index_perm _ _ (sort_index_perm rows)) as P.
  split; [apply sort_index_perm|]. split; [exact Hs|]. split.
  - intros Hn. apply sorted_NoDup_strict; [exact Hs|].
    eapply Permutation_NoDup; eassumption.
  - intros Hlt. apply strictly_sorted_NoDup in Hlt.
    eapply Permutation_NoDup; [apply Permutation_sym, P | exact Hlt].
Qed.

(** C9, the claim as stated, fails: two uploaded rows share the timestamp
    [DAY]; both are in the sorted series, whose timestamps are then neither
    strictly ascending nor free of duplicates. *)
Lemma duplicate_timestamps_kept :
  sort_index [(DAY, Fin 2); (0, Fin 1); (DAY, Fin 3)]
  = [(0, Fin 1); (DAY, Fin 2); (DAY, Fin 3)] /\
  ~ StronglySorted Z.lt
      (index (sort_index [(DAY, Fin 2); (0, Fin 1); (DAY, Fin 3)])) /\
  ~ NoDup (index (sort_index [(DAY, Fin 2); (0, Fin 1); (DAY, Fin 3)])).
Proof.
  assert (Hn : ~ NoDup
             (index (sort_index [(DAY, Fin 2); (0, Fin 1); (DAY, Fin 3)]))).
  { intros H. inversion H as [|? ? _ H']; subst.
    inversion H' as [|? ? Hnotin _]; subst. apply Hnotin. now left. }
  split; [reflexivity|]. split; [|exact Hn].
  intros H. apply Hn, strictly_sorted_NoDup, H.
Qed.

(** ** The script *)

Lemma adjust_length (raw : list float) (FCD FD : Z) (tpc : float)
  (out : list float) :
  adjust raw FCD FD tpc = Ok out -> length out = length raw.
Proof.
  intros H. destruct (signal FCD tpc) eqn:Hs.
  - destruct (adjust_ok_inv _ _ _ _ _ Hs H) as (adj & diff & _ & _ & Hl & ->).
    now rewrite length_map.
  - rewrite adjust_unfold, Hs in H. congruence.
Qed.

(** A run that reaches line 66, read backwards. *)
Lemma core_inv (F : Series -> Z -> Z -> result (list float)) (p : inputs)
  (rows : Series) (o : outcome) :
  core F p rows = Ok o ->
  exists m raw adj,
    let s := sort_index rows in
    let dates := date_range (normalize m + DAY) (FORECAST_DAYS p) in
    let tpc := traffic_per_customer (values s) (HIST_CUSTOMER_DROP p) in
    let fc := {| time_sec := dates; Forecast_raw := raw; Adjusted := adj |} in
    index_max (index s) = Some m /\
    F s (SEASONAL_PERIODS p) (FORECAST_DAYS p) = Ok raw /\
    length dates = length raw /\
    adjust raw (FORECAST_CUSTOMER_DROP p) (FORECAST_DAYS p) tpc = Ok adj /\
    o = {| series := s; forecast_df := fc; coefficient := tpc;
           output_df := concat s fc |}.
Proof.
  unfold core, last_hist_date.
  destruct (index_max (index (sort_index rows))) as [m|] eqn:Hm;
    cbn [bind]; [|discriminate].
  destruct (F (sort_index rows) (SEASONAL_PERIODS p) (FORECAST_DAYS p))
    as [raw|e] eqn:HF; cbn [bind]; [|discriminate].
  unfold DataFrame.
  destruct (Nat.eqb_spec
              (length (date_range (normalize m + DAY) (FORECAST_DAYS p)))
              (length raw)) as [El|El]; cbn [bind fst snd]; [|discriminate].
  destruct (adjust raw (FORECAST_CUSTOMER_DROP p) (FORECAST_DAYS p)
              (traffic_per_customer (values (sort_index rows))
                 (HIST_CUSTOMER_DROP p))) as [adj|e] eqn:Ha;
    cbn [bind]; [|discriminate].
  intros H. injection H as <-. exists m, raw, adj. cbn zeta. auto.
Qed.

(** The same, forwards. *)
Lemma core_ok (F : Series -> Z -> Z -> result (list float)) (p : inputs)
  (rows : Series) (m : Timestamp) (raw adj : list float) :
  let s := sort_index rows in
  let dates := date_range (normalize m + DAY) (FORECAST_DAYS p) in
  let tpc := traffic_per_customer (values s) (HIST_CUSTOMER_DROP p) in
  let fc := {| time_sec := dates; Forecast_raw := raw; Adjusted := adj |} in
  index_max (index s) = Some m ->
  F s (SEASONAL_PERIODS p) (FORECAST_DAYS p) = Ok raw ->
  length dates = length raw ->
  adjust raw (FORECAST_CUSTOMER_DROP p) (FORECAST_DAYS p) tpc = Ok adj ->
  core F p rows = Ok {| series := s; forecast_df := fc; coefficient := tpc;
                        output_df := concat s fc |}.
Proof.
  cbn zeta. intros Hm HF Hl Ha. unfold core, last_hist_date.
  rewrite Hm. cbn [bind]. rewrite HF. cbn [bind].
  unfold DataFrame. rewrite Hl, Nat.eqb_refl. cbn [bind fst snd].
  rewrite Ha. reflexivity.
Qed.

(** C6. On a run that reaches the output, with a horizon of at least 0,
    the forecast frame has exactly [forecast_horizon_days] dates, raw
    values and adjusted values, and its date number [i] (from 0) is the
    midnight that opens the day [1 + i] days after the day of the last
    historical timestamp: consecutive days, the first one the day after the
    last historical date. *)
Theorem horizon_contract (F : Series -> Z -> Z -> result (list float))
  (p : inputs) (rows : Series) (o : outcome) :
  core F p rows = Ok o ->
  0 <= FORECAST_DAYS p ->
  Z.of_nat (length (time_sec (forecast_df o))) = FORECAST_DAYS p /\
  Z.of_nat (length (Forecast_raw (forecast_df o))) = FORECAST_DAYS p /\
  Z.of_nat (length (Adjusted (forecast_df o))) = FORECAST_DAYS p /\
  exists last,
    In last (index rows) /\ Forall (fun t => t <= last) (index rows) /\
    forall i, 0 <= i < FORECAST_DAYS p ->
      nth_error (time_sec (forecast_df o)) (Z.to_nat i)
      = Some ((last / DAY + 1 + i) * DAY).
Proof.
  intros H HD.
  destruct (core_inv _ _ _ _ H) as (m & raw & adj & Hm & HF & Hl & Ha & ->).
  cbn [forecast_df time_sec Forecast_raw Adjusted].
  pose proof (adjust_length _ _ _ _ _ Ha) as Hadj.
  rewrite date_range_length in Hl.
  rewrite date_range_length, Hadj, <- Hl.
  repeat (split; [lia|]).
  rewrite <- (index_max_perm _ _ (index_perm _ _ (sort_index_perm rows))) in Hm.
  apply index_max_spec in Hm. destruct Hm as [Hin Hall].
  exists m. split; [exact Hin|]. split; [exact Hall|].
  intros i Hi. rewrite date_range_nth by lia. f_equal.
  rewrite normalize_day, Z2Nat.id by lia. unfold Timestamp in *. ring.
Qed.

Lemma horizon_contract_witness :
  exists o,
    core repeat_last
      {| HIST_CUSTOMER_DROP := 10; FORECAST_CUSTOMER_DROP := 4;
         FORECAST_DAYS := 2; SEASONAL_PERIODS := 1 |}
      [(2 * DAY + 5, Fin 1); (0, Fin 3); (DAY, Fin 2)] = Ok o /\
    Z.of_nat (length (time_sec (forecast_df o))) = 2 /\
    Z.of_nat (length (Forecast_raw (forecast_df o))) = 2 /\
    Z.of_nat (length (Adjusted (forecast_df o))) = 2 /\
    exists last,
      In last (index [(2 * DAY + 5, Fin 1); (0, Fin 3); (DAY, Fin 2)]) /\
      Forall (fun t => t <= last)
        (index [(2 * DAY + 5, Fin 1); (0, Fin 3); (DAY, Fin 2)]) /\
      forall i, 0 <= i < 2 ->
        nth_error (time_sec (forecast_df o)) (Z.to_nat i)
        = Some ((last / DAY + 1 + i) * DAY).
Proof.
  destruct (core repeat_last
      {| HIST_CUSTOMER_DROP := 10; FORECAST_CUSTOMER_DROP := 4;
         FORECAST_DAYS := 2; SEASONAL_PERIODS := 1 |}
      [(2 * DAY + 5, Fin 1); (0, Fin 3); (DAY, Fin 2)]) as [o|e] eqn:E.
  - exists o. split; [reflexivity|].
    apply (horizon_contract repeat_last _ _ o E). simpl. lia.
  - vm_compute in E. discriminate E.
Defined.

Lemma last_hist_date_nonempty (s : Series) :
  s <> [] -> exists t, last_hist_date (sort_index s) = Ok t.
Proof.
  intros Hne. unfold last_hist_date.
  destruct (index (sort_index s)) as [|t ts] eqn:E.
  - exfalso. apply Hne. apply length_zero_iff_nil.
    rewrite <- sort_index_length. unfold index in E.
    apply (f_equal (@length _)) in E. now rewrite length_map in E.
  - simpl. eauto.
Qed.

(** C5, as the code has it, against the forecaster of the specification.
    The claim itself fails on an empty upload, which never reaches the
    forecaster.  When the series has fewer than [2 * seasonal_periods]
    observations the run ends in an error whatever the fit would have
    returned, and the page holds the title only: no chart, no download, no
    summary.  On a series that is not empty the error is the forecaster's
    InsufficientDataError; an empty upload fails one line earlier, on the
    date of its last row, with another error. *)
Theorem insufficient_history (p : inputs) (rows : Series) :
  Z.of_nat (length rows) < 2 * SEASONAL_PERIODS p ->
  exists e,
    (rows <> [] -> e = InsufficientDataError) /\
    (rows = [] -> e = AttributeError) /\
    forall hw,
      app (seasonal_forecaster hw) p (Some rows) = ([title], Err e).
Proof.
  intros Hlen. destruct rows as [|r rows].
  - exists AttributeError. split; [congruence|]. split; reflexivity.
  - exists InsufficientDataError. split; [reflexivity|].
    split; [discriminate|]. intros hw.
    unfold app, core.
    destruct (last_hist_date_nonempty (r :: rows)) as (t & ->); [discriminate|].
    cbn [bind]. unfold seasonal_forecaster. rewrite sort_index_length.
    destruct (Z.ltb_spec (Z.of_nat (length (r :: rows)))
                (2 * SEASONAL_PERIODS p)) as [_|L]; [reflexivity | lia].
Qed.

Lemma insufficient_history_witness :
  exists e,
    (firstn 59 history60 <> [] -> e = InsufficientDataError) /\
    (firstn 59 history60 = [] -> e = AttributeError) /\
    forall hw,
      app (seasonal_forecaster hw) inputs60 (Some (firstn 59 history60))
      = ([title], Err e).
Proof.
  apply (insufficient_history inputs60 (firstn 59 history60)).
  vm_compute. reflexivity.
Defined.

(** C5, the claim as stated, fails: an upload without rows has fewer than
    [2 * 30] observations, yet the run stops on line 34, before the
    forecaster is called, and the error is not InsufficientDataError. *)
Lemma empty_upload_stops_before_forecaster :
  Z.of_nat (length (@nil (Timestamp * float))) < 2 * SEASONAL_PERIODS inputs60 /\
  (forall hw,
      app (seasonal_forecaster hw) inputs60 (Some [])
      = ([title], Err AttributeError)) /\
  AttributeError <> InsufficientDataError.
Proof.
  split; [reflexivity|]. split; [reflexivity | discriminate].
Qed.

(** ** The scenario of section 8 *)

Lemma Forall2_pointwise {A B : Type} (R : A -> B -> Prop)
  (l1 : list A) (l2 : list B) :
  length l2 = length l1 ->
  (forall n x, nth_error l1 n = Some x ->
     exists y, nth_error l2 n = Some y /\ R x y) ->
  Forall2 R l1 l2.
Proof.
  revert l2. induction l1 as [|x l1 IH]; intros [|y l2] Hl H;
    try discriminate; constructor.
  - destruct (H 0%nat x eq_refl) as (y' & Hy & HR).
    injection Hy as <-. exact HR.
  - apply IH; [now injection Hl|].
    intros n x' Hx. exact (H (S n) x' Hx).
Qed.

Lemma history60_sorted : sort_index history60 = history60.
Proof. vm_compute. reflexivity. Qed.

Lemma history60_last : index_max (index history60) = Some (59 * DAY).
Proof. vm_compute. reflexivity. Qed.

Lemma history60_coefficient :
  exists c, traffic_per_customer (values history60) 100000 = Fin c /\
            c == -46 # 100000.
Proof. eexists. split; [vm_compute; reflexivity | reflexivity]. Qed.

(** C8. On the sixty observations 100..159 with the parameters of the
    scenario the mean of the first 14 is 106.5, the mean of the last 14 is
    152.5 and the coefficient is -46/100000 = -0.00046.  Whatever ten
    numbers the fit returns as raw forecast, the run reaches the output and
    every adjusted value is strictly above its raw value. *)
Theorem concrete_scenario (F : Series -> Z -> Z -> result (list float))
  (raw : list float) :
  F history60 30 10 = Ok raw ->
  length raw = 10%nat ->
  Forall finite raw ->
  feq (mean (head 14 (values history60))) (Fin (213 # 2)) /\
  feq (mean (tail 14 (values history60))) (Fin (305 # 2)) /\
  exists o,
    core F inputs60 history60 = Ok o /\
    feq (coefficient o) (Fin (-46 # 100000)) /\
    Forecast_raw (forecast_df o) = raw /\
    Forall2 flt (Forecast_raw (forecast_df o)) (Adjusted (forecast_df o)).
Proof.
  intros HF Hl Hfin.
  split; [vm_compute; reflexivity|]. split; [vm_compute; reflexivity|].
  destruct history60_coefficient as (c & Hc & Ec).
  assert (Hc0 : ~ c == 0) by (rewrite Ec; discriminate).
  destruct (adjust_entry raw 50000 10 c) as (out & Ho & Hlen & He);
    [discriminate | exact Hc0 | lia | exact Hl |].
  eexists. split; [|split; [|split]].
  - apply (core_ok F inputs60 history60 (59 * DAY) raw out).
    + rewrite history60_sorted. exact history60_last.
    + rewrite history60_sorted. exact HF.
    + rewrite date_range_length, Hl. reflexivity.
    + rewrite history60_sorted. cbn [inputs60 HIST_CUSTOMER_DROP
        FORECAST_CUSTOMER_DROP FORECAST_DAYS]. rewrite Hc. exact Ho.
  - cbn [coefficient]. rewrite history60_sorted.
    cbn [inputs60 HIST_CUSTOMER_DROP]. rewrite Hc. exact Ec.
  - reflexivity.
  - cbn [forecast_df Forecast_raw Adjusted].
    apply Forall2_pointwise; [exact Hlen|].
    intros n x Hx. rewrite Forall_forall in Hfin.
    pose proof (Hfin x (nth_error_In _ _ Hx)) as Hxf.
    destruct x as [|r]; [discriminate Hxf|].
    destruct (He n r Hx) as (v & Hv & Ev).
    exists (Fin v). split; [exact Hv|]. simpl.
    assert (Hk : (1 <= inject_Z (1 + Z.of_nat n))%Q).
    { change 1%Q with (inject_Z 1). rewrite <- Zle_Qle. lia. }
    set (k := inject_Z (1 + Z.of_nat n)) in *.
    assert (Hd : inject_Z 50000 / inject_Z 10 == 5000 # 1) by reflexivity.
    rewrite Hd, Ec in Ev.
    apply Qlt_le_trans with (r - k * (5000 # 1) * (-46 # 100000))%Q.
    + assert (0 < k * (5000 # 1) * (46 # 100000))%Q.
      { apply Qmult_lt_0_compat; [|reflexivity].
        apply Qmult_lt_0_compat; [lra | reflexivity]. }
      lra.
    + rewrite Ev. apply Q.le_max_r.
Qed.

Lemma concrete_scenario_witness :
  feq (mean (head 14 (values history60))) (Fin (213 # 2)) /\
  feq (mean (tail 14 (values history60))) (Fin (305 # 2)) /\
  exists o,
    core repeat_last inputs60 history60 = Ok o /\
    feq (coefficient o) (Fin (-46 # 100000)) /\
    Forecast_raw (forecast_df o) = repeat (of_int 159) 10 /\
    Forall2 flt (Forecast_raw (forecast_df o)) (Adjusted (forecast_df o)).
Proof.
  apply (concrete_scenario repeat_last (repeat (of_int 159) 10)).
  - vm_compute. reflexivity.
  - reflexivity.
  - repeat constructor.
Defined.

(** ** The output table *)

Lemma StronglySorted_app {A : Type} (R : A -> A -> Prop) (l1 l2 : list A) :
  StronglySorted R l1 -> StronglySorted R l2 ->
  (forall x y, In x l1 -> In y l2 -> R x y) ->
  StronglySorted R (l1 ++ l2).
Proof.
  induction 1 as [|a l1 Hs IH Ha]; intros H2 Hc; simpl; [exact H2|].
  constructor.
  - apply IH; [exact H2|]. intros x y Hx Hy. apply Hc; [now right | exact Hy].
  - apply Forall_app. split; [exact Ha|].
    apply Forall_forall. intros y Hy. apply Hc; [now left | exact Hy].
Qed.

Lemma date_range_In (start periods d : Z) :
  In d (date_range start periods) ->
  exists k, (k < Z.to_nat periods)%nat /\ d = start + Z.of_nat k * DAY.
Proof.
  unfold date_range. intros H. apply in_map_iff in H.
  destruct H as (k & <- & Hk). apply in_seq in Hk. exists k. split; [lia | reflexivity].
Qed.

Lemma date_range_sorted (start periods : Z) :
  StronglySorted Z.le (date_range start periods).
Proof.
  unfold date_range. generalize (Z.to_nat periods) as n. generalize 0%nat as a.
  intros a n. revert a. induction n as [|n IH]; intros a; simpl; constructor.
  - apply IH.
  - apply Forall_forall. intros d Hd. apply in_map_iff in Hd.
    destruct Hd as (k & <- & Hk). apply in_seq in Hk.
    pose proof DAY_pos. unfold Timestamp in *. nia.
Qed.

Lemma forecast_rows_time (ts : list Timestamp) (raw adj : list float) :
  length ts = length raw -> length adj = length raw ->
  map o_time_sec (forecast_rows ts raw adj) = ts.
Proof.
  revert raw adj. induction ts as [|t ts IH]; intros [|r raw] [|a adj] H1 H2;
    simpl in *; try discriminate; [reflexivity|].
  f_equal. apply IH; lia.
Qed.

Lemma normalize_le (t : Timestamp) : normalize t <= t < normalize t + DAY.
Proof.
  unfold normalize. pose proof (Z.mod_pos_bound t DAY DAY_pos).
  unfold Timestamp in *. lia.
Qed.

(** X1. The result assembler (lines 65-66): the time column of the output
    table is the sorted historical timestamps followed by the forecast
    dates, every forecast date is strictly after every historical
    timestamp, and the whole column is in ascending order. *)
Theorem output_chronological (F : Series -> Z -> Z -> result (list float))
  (p : inputs) (rows : Series) (o : outcome) :
  core F p rows = Ok o ->
  map o_time_sec (output_df o) = index (series o) ++ time_sec (forecast_df o) /\
  (forall t d,
      In t (index rows) -> In d (time_sec (forecast_df o)) -> t < d) /\
  StronglySorted Z.le (map o_time_sec (output_df o)).
Proof.
  intros H.
  destruct (core_inv _ _ _ _ H) as (m & raw & adj & Hm & HF & Hl & Ha & ->).
  cbn [output_df series forecast_df time_sec].
  pose proof (adjust_length _ _ _ _ _ Ha) as Hadj.
  assert (Hcol : map o_time_sec
                   (concat (sort_index rows)
                      {| time_sec := date_range (normalize m + DAY)
                                       (FORECAST_DAYS p);
                         Forecast_raw := raw; Adjusted := adj |})
                 = index (sort_index rows)
                   ++ date_range (normalize m + DAY) (FORECAST_DAYS p)).
  { unfold concat, hist_df, index. cbn [time_sec Forecast_raw Adjusted].
    rewrite map_app, map_map, forecast_rows_time by assumption.
    reflexivity. }
  assert (Hlt : forall t d,
             In t (index (sort_index rows)) ->
             In d (date_range (normalize m + DAY) (FORECAST_DAYS p)) ->
             t < d).
  { intros t d Ht Hd. apply index_max_spec in Hm. destruct Hm as [_ Hall].
    rewrite Forall_forall in Hall. specialize (Hall _ Ht).
    apply date_range_In in Hd. destruct Hd as (k & _ & ->).
    pose proof (normalize_le m). pose proof DAY_pos.
    unfold Timestamp in *. nia. }
  split; [exact Hcol|]. split.
  - intros t d Ht Hd. apply Hlt; [|exact Hd].
    eapply Permutation_in; [apply index_perm, sort_index_perm | exact Ht].
  - rewrite Hcol. apply StronglySorted_app.
    + apply Sorted_StronglySorted; [exact Z.le_trans | apply sort_index_sorted].
    + apply date_range_sorted.
    + intros t d Ht Hd. apply Z.lt_le_incl. now apply Hlt.
Qed.

Lemma output_chronological_witness :
  exists o,
    core repeat_last inputs60 (rev (firstn 3 history60)) = Ok o /\
    map o_time_sec (output_df o)
    = index (series o) ++ time_sec (forecast_df o) /\
    (forall t d,
        In t (index (rev (firstn 3 history60))) ->
        In d (time_sec (forecast_df o)) -> t < d) /\
    StronglySorted Z.le (map o_time_sec (output_df o)).
Proof.
  destruct (core repeat_last inputs60 (rev (firstn 3 history60)))
    as [o|e] eqn:E.
  - exists o. split; [reflexivity|].
    exact (output_chronological repeat_last _ _ o E).
  - vm_compute in E. discriminate E.
Defined.

Lemma traffic_per_customer_zero_change (obs : list float) :
  traffic_per_customer obs 0 = Fin 0.
Proof.
  unfold traffic_per_customer.
  destruct (negb (isnan (mean (head 14 obs)))
            && negb (isnan (mean (tail 14 obs)))); reflexivity.
Qed.

(** X2. A historical customer change of 0 gives the coefficient 0 whatever
    the series (lines 49-53), and the run that reaches the output then
    leaves the forecast unadjusted: the adjusted column is the raw column
    (lines 56-57). *)
Theorem zero_history_noop (F : Series -> Z -> Z -> result (list float))
  (p : inputs) (rows : Series) (o : outcome) :
  core F p rows = Ok o ->
  HIST_CUSTOMER_DROP p = 0 ->
  coefficient o = Fin 0 /\
  Adjusted (forecast_df o) = Forecast_raw (forecast_df o).
Proof.
  intros H Hz.
  destruct (core_inv _ _ _ _ H) as (m & raw & adj & _ & _ & _ & Ha & ->).
  cbn [coefficient forecast_df Adjusted Forecast_raw].
  rewrite Hz, traffic_per_customer_zero_change in *.
  split; [reflexivity|].
  rewrite adjust_unfold in Ha.
  assert (Hs : signal (FORECAST_CUSTOMER_DROP p) (Fin 0) = false).
  { apply signal_false. right. reflexivity. }
  rewrite Hs in Ha. congruence.
Qed.

Lemma zero_history_noop_witness :
  exists o,
    core repeat_last
      {| HIST_CUSTOMER_DROP := 0; FORECAST_CUSTOMER_DROP := 50000;
         FORECAST_DAYS := 10; SEASONAL_PERIODS := 30 |} history60 = Ok o /\
    coefficient o = Fin 0 /\
    Adjusted (forecast_df o) = Forecast_raw (forecast_df o).
Proof.
  destruct (core repeat_last
      {| HIST_CUSTOMER_DROP := 0; FORECAST_CUSTOMER_DROP := 50000;
         FORECAST_DAYS := 10; SEASONAL_PERIODS := 30 |} history60)
    as [o|e] eqn:E.
  - exists o. split; [reflexivity|].
    exact (zero_history_noop repeat_last _ _ o E eq_refl).
  - vm_compute in E. discriminate E.
Defined.

(** ** More on the estimator *)

Lemma adjust_no_signal (raw : list float) (FCD FD : Z) (tpc : float) :
  signal FCD tpc = false -> adjust raw FCD FD tpc = Ok raw.
Proof. intros H. now rewrite adjust_unfold, H. Qed.

Lemma mean_cases (l : list float) : mean l = NaN \/ exists q, mean l = Fin q.
Proof. unfold mean. destruct (0 <? count_notna l)%nat; eauto. Qed.

Lemma traffic_per_customer_same_windows (obs : list float) (h : Z) :
  head 14 obs = tail 14 obs -> feq (traffic_per_customer obs h) (Fin 0).
Proof.
  intros E. unfold traffic_per_customer. rewrite <- E.
  destruct (mean_cases (head 14 obs)) as [->|(q & ->)]; [reflexivity|].
  cbn [isnan negb andb fsub]. destruct (h =? 0); cbn [negb].
  - reflexivity.
  - simpl. unfold Qminus. rewrite Qplus_opp_r. reflexivity.
Qed.

Lemma short_windows {A : Type} (l : list A) :
  (length l <= 14)%nat -> head 14 l = tail 14 l.
Proof.
  intros H. unfold head, tail. rewrite firstn_all2 by exact H.
  replace (length l - 14)%nat with 0%nat by lia. reflexivity.
Qed.

(** X3. With at most 14 observations the first and the last window are
    both the whole series, so the coefficient is 0 whatever the values and
    the historical customer change (lines 46-53), and a run that reaches
    the output leaves the forecast unadjusted (lines 56-57). *)
Theorem short_history_noop (F : Series -> Z -> Z -> result (list float))
  (p : inputs) (rows : Series) (o : outcome) :
  (length rows <= 14)%nat ->
  core F p rows = Ok o ->
  feq (coefficient o) (Fin 0) /\
  Adjusted (forecast_df o) = Forecast_raw (forecast_df o).
Proof.
  intros Hn H.
  destruct (core_inv _ _ _ _ H) as (m & raw & adj & _ & _ & _ & Ha & ->).
  cbn [coefficient forecast_df Adjusted Forecast_raw].
  assert (Hz : feq (traffic_per_customer (values (sort_index rows))
                      (HIST_CUSTOMER_DROP p)) (Fin 0)).
  { apply traffic_per_customer_same_windows, short_windows.
    unfold values. now rewrite length_map, sort_index_length. }
  split; [exact Hz|].
  rewrite adjust_no_signal in Ha; [congruence|].
  apply signal_false. now right.
Qed.

Lemma short_history_noop_witness :
  exists o,
    core repeat_last inputs60 (firstn 14 history60) = Ok o /\
    feq (coefficient o) (Fin 0) /\
    Adjusted (forecast_df o) = Forecast_raw (forecast_df o).
Proof.
  destruct (core repeat_last inputs60 (firstn 14 history60)) as [o|e] eqn:E.
  - exists o. split; [reflexivity|].
    apply (short_history_noop repeat_last inputs60 (firstn 14 history60) o);
      [vm_compute; apply le_n | exact E].
  - vm_compute in E. discriminate E.
Defined.

Lemma head_app_exact {A : Type} (k : nat) (a l : list A) :
  length a = k -> head k (a ++ l) = a.
Proof.
  intros <-. unfold head. rewrite firstn_app, Nat.sub_diag, firstn_all.
  simpl. apply app_nil_r.
Qed.

Lemma tail_app_exact {A : Type} (k : nat) (l b : list A) :
  length b = k -> tail k (l ++ b) = b.
Proof.
  intros <-. unfold tail. rewrite length_app.
  replace (length l + length b - length b)%nat with (length l) by lia.
  rewrite skipn_app, skipn_all, Nat.sub_diag. reflexivity.
Qed.

(** X4. The coefficient reads the first 14 and the last 14 observations
    only: whatever lies between them, of whatever length, does not change
    it (lines 46-47). *)
Theorem middle_ignored (first14 mid mid' last14 : list float) (h : Z) :
  length first14 = 14%nat -> length last14 = 14%nat ->
  traffic_per_customer (first14 ++ mid ++ last14) h
  = traffic_per_customer (first14 ++ mid' ++ last14) h.
Proof.
  intros Ha Hb. unfold traffic_per_customer.
  rewrite !(head_app_exact 14 first14) by exact Ha.
  rewrite !app_assoc, !(tail_app_exact 14 _ last14) by exact Hb.
  reflexivity.
Qed.

Lemma middle_ignored_witness :
  traffic_per_customer
    (values (firstn 14 history60) ++ [Fin 7; NaN] ++ values (skipn 46 history60))
    100000
  = traffic_per_customer
      (values (firstn 14 history60) ++ [] ++ values (skipn 46 history60))
      100000.
Proof.
  apply (middle_ignored (values (firstn 14 history60)) [Fin 7; NaN] []
           (values (skipn 46 history60)) 100000); reflexivity.
Defined.

Lemma traffic_per_customer_of_means (obs : list float) (h : Z) :
  traffic_per_customer obs h =
  match mean (head 14 obs), mean (tail 14 obs) with
  | Fin a, Fin b => if h =? 0 then Fin 0 else Fin ((a - b) / inject_Z h)
  | _, _ => Fin 0
  end.
Proof.
  unfold traffic_per_customer.
  destruct (mean (head 14 obs)) as [|a], (mean (tail 14 obs)) as [|b];
    try reflexivity.
  cbn [isnan negb andb fsub fdiv_int]. destruct (h =? 0); reflexivity.
Qed.

(** X5. The sign convention of the estimator (lines 51-53): changing the
    sign of the historical customer change changes the sign of the
    coefficient, whatever the series. *)
Theorem coefficient_sign_flip (obs : list float) (h : Z) :
  feq (traffic_per_customer obs (- h)) (fneg (traffic_per_customer obs h)).
Proof.
  rewrite !traffic_per_customer_of_means.
  destruct (mean (head 14 obs)) as [|a]; [reflexivity|].
  destruct (mean (tail 14 obs)) as [|b]; [reflexivity|].
  assert (E0 : (- h =? 0) = (h =? 0)).
  { destruct (Z.eqb_spec h 0), (Z.eqb_spec (- h) 0); lia || reflexivity. }
  rewrite E0. destruct (Z.eqb_spec h 0) as [->|N]; simpl.
  - reflexivity.
  - assert (~ inject_Z h == 0).
    { change 0%Q with (inject_Z 0). rewrite inject_Z_injective. exact N. }
    rewrite inject_Z_opp. field. assumption.
Qed.

(** ** More on the adjuster *)

Lemma inject_Z_nonzero (z : Z) : z <> 0 -> ~ inject_Z z == 0.
Proof.
  intros H. change 0%Q with (inject_Z 0). now rewrite inject_Z_injective.
Qed.

(** X8. The direction of the correction follows the signs (lines 57-62):
    when the customer change and the coefficient have opposite signs, no
    adjusted value computed from a raw number is below it; when they have
    the same sign, it is at most the raw value or 0, whichever is larger. *)
Theorem correction_direction (raw : list float) (FCD FD : Z) (c : Q) :
  1 <= FD -> length raw = Z.to_nat FD -> FCD <> 0 -> ~ c == 0 ->
  exists out,
    adjust raw FCD FD (Fin c) = Ok out /\
    forall n r,
      nth_error raw n = Some (Fin r) ->
      exists v,
        nth_error out n = Some (Fin v) /\
        ((inject_Z FCD * c < 0)%Q -> (r <= v)%Q) /\
        ((0 < inject_Z FCD * c)%Q -> (v <= Qmax 0 r)%Q).
Proof.
  intros HD Hl HF Hc.
  destruct (adjust_entry raw FCD FD c HF Hc HD Hl) as (out & Ho & _ & He).
  exists out. split; [exact Ho|]. intros n r Hr.
  destruct (He n r Hr) as (v & Hv & Ev). exists v. split; [exact Hv|].
  pose proof (inject_Z_nonzero FD ltac:(lia)) as HFD.
  assert (HFDpos : (0 < inject_Z FD)%Q).
  { change 0%Q with (inject_Z 0). rewrite <- Zlt_Qlt. lia. }
  assert (Hk : (0 < inject_Z (1 + Z.of_nat n))%Q).
  { change 0%Q with (inject_Z 0). rewrite <- Zlt_Qlt. lia. }
  set (k := inject_Z (1 + Z.of_nat n)) in *.
  assert (Eadj : k * (inject_Z FCD / inject_Z FD) * c
                 == (k / inject_Z FD) * (inject_Z FCD * c)).
  { field. exact HFD. }
  assert (Hq : (0 < k / inject_Z FD)%Q).
  { apply Qlt_shift_div_l; [exact HFDpos | lra]. }
  rewrite Eadj in Ev. set (w := (k / inject_Z FD)%Q) in *.
  set (s := (inject_Z FCD * c)%Q) in *. split.
  - intros Hs. apply Qle_trans with (r - w * s)%Q.
    + assert (0 < w * (- s))%Q by (apply Qmult_lt_0_compat; lra). lra.
    + rewrite Ev. apply Q.le_max_r.
  - intros Hs. rewrite Ev. apply Q.max_le_compat_l.
    assert (0 < w * s)%Q by (apply Qmult_lt_0_compat; lra). lra.
Qed.

Lemma correction_direction_witness :
  exists out,
    adjust [Fin (-5 # 1); Fin (7 # 2)] (-4) 2 (Fin (1 # 2)) = Ok out /\
    forall n r,
      nth_error [Fin (-5 # 1); Fin (7 # 2)] n = Some (Fin r) ->
      exists v,
        nth_error out n = Some (Fin v) /\
        ((inject_Z (-4) * (1 # 2) < 0)%Q -> (r <= v)%Q) /\
        ((0 < inject_Z (-4) * (1 # 2))%Q -> (v <= Qmax 0 r)%Q).
Proof.
  apply (correction_direction [Fin (-5 # 1); Fin (7 # 2)] (-4) 2 (1 # 2)).
  - lia.
  - reflexivity.
  - discriminate.
  - discriminate.
Defined.

(** ** The division of line 58 *)





(** ** More on ingestion *)

Lemma insert_row_front (r : Timestamp * float) (s : Series) :
  Sorted Z.le (index (r :: s)) -> insert_row r s = r :: s.
Proof.
  destruct s as [|r' s]; [reflexivity|]. simpl. intros H.
  inversion H as [|? ? _ Hhd]; subst. inversion Hhd; subst.
  destruct (Z.leb_spec (fst r) (fst r')); [reflexivity | lia].
Qed.

Lemma sort_index_sorted_id (s : Series) :
  Sorted Z.le (index s) -> sort_index s = s.
Proof.
  induction s as [|r s IH]; [reflexivity|]. intros H. simpl.
  rewrite IH by (inversion H; assumption).
  now apply insert_row_front.
Qed.

(** X10. An upload whose rows are already in ascending order of timestamp,
    repeated timestamps included, is handed on unchanged, and sorting twice
    is the same as sorting once (line 32). *)
Theorem sort_index_keeps_sorted :
  (forall rows, Sorted Z.le (index rows) -> sort_index rows = rows) /\
  (forall rows, sort_index (sort_index rows) = sort_index rows).
Proof.
  split; [exact sort_index_sorted_id|].
  intros rows. apply sort_index_sorted_id, sort_index_sorted.
Qed.

Lemma strictly_sorted_unique (l l' : Series) :
  StronglySorted Z.lt (index l) -> StronglySorted Z.lt (index l') ->
  Permutation l l' -> l = l'.
Proof.
  revert l'. induction l as [|a l IH]; intros l' Hs Hs' P.
  - apply Permutation_nil in P. now subst.
  - destruct l' as [|b l'].
    { apply Permutation_sym, Permutation_nil in P. discriminate. }
    simpl in Hs, Hs'.
    inversion Hs as [|? ? Hl Ha]; subst. inversion Hs' as [|? ? Hl' Hb]; subst.
    rewrite Forall_forall in Ha, Hb.
    assert (E : a = b).
    { assert (Hin : In a (b :: l')).
      { eapply Permutation_in; [exact P | now left]. }
      assert (Hin' : In b (a :: l)).
      { eapply Permutation_in; [apply Permutation_sym, P | now left]. }
      destruct Hin as [E|Hin]; [now symmetry|].
      destruct Hin' as [E|Hin']; [exact E|].
      pose proof (Hb _ (in_map fst _ _ Hin)).
      pose proof (Ha _ (in_map fst _ _ Hin')). lia. }
    subst b. f_equal. apply IH; try assumption.
    eapply Permutation_cons_inv; exact P.
Qed.

(** X11. With pairwise distinct timestamps the order of the rows in the
    upload does not matter: two uploads holding the same rows give the same
    series (line 32) and the same result of the run (lines 29-66). *)
Theorem row_order_irrelevant (F : Series -> Z -> Z -> result (list float))
  (p : inputs) (rows rows' : Series) :
  Permutation rows rows' -> NoDup (index rows) ->
  sort_index rows = sort_index rows' /\ core F p rows = core F p rows'.
Proof.
  intros P Hn.
  assert (E : sort_index rows = sort_index rows').
  { assert (Hn' : NoDup (index rows')).
    { eapply Permutation_NoDup; [apply index_perm, P | exact Hn]. }
    assert (Hsorted : forall s, NoDup (index s) ->
                        StronglySorted Z.lt (index (sort_index s))).
    { intros s Hs. apply sorted_NoDup_strict.
      - apply Sorted_StronglySorted;
          [exact Z.le_trans | apply sort_index_sorted].
      - eapply Permutation_NoDup;
          [apply index_perm, sort_index_perm | exact Hs]. }
    apply strictly_sorted_unique; [now apply Hsorted | now apply Hsorted |].
    eapply perm_trans; [apply Permutation_sym, sort_index_perm|].
    eapply perm_trans; [exact P | apply sort_index_perm]. }
  split; [exact E|]. unfold core. now rewrite E.
Qed.

Lemma row_order_irrelevant_witness :
  sort_index (rev history60) = sort_index history60 /\
  core repeat_last inputs60 (rev history60)
  = core repeat_last inputs60 history60.
Proof.
  apply (row_order_irrelevant repeat_last inputs60 (rev history60) history60).
  - apply Permutation_sym, Permutation_rev.
  - apply (Permutation_NoDup (l := index history60)).
    + apply index_perm, Permutation_rev.
    + apply strictly_sorted_NoDup. vm_compute. repeat constructor.
Defined.

(** ** More on the dates and the output table *)

(** X12. The forecast dates depend on the calendar day of the last
    historical timestamp and on the horizon only, not on its time of day
    nor on anything else in the upload (lines 34 and 41): two runs with the
    same horizon whose last timestamps fall on the same day have the same
    forecast dates. *)
Theorem forecast_dates_by_day
  (F F' : Series -> Z -> Z -> result (list float)) (p p' : inputs)
  (rows rows' : Series) (o o' : outcome) (last last' : Timestamp) :
  core F p rows = Ok o -> core F' p' rows' = Ok o' ->
  FORECAST_DAYS p = FORECAST_DAYS p' ->
  index_max (index rows) = Some last ->
  index_max (index rows') = Some last' ->
  last / DAY = last' / DAY ->
  time_sec (forecast_df o) = time_sec (forecast_df o').
Proof.
  intros H H' HD Hm Hm' Hday.
  destruct (core_inv _ _ _ _ H) as (m & raw & adj & Em & _ & _ & _ & ->).
  destruct (core_inv _ _ _ _ H') as (m' & raw' & adj' & Em' & _ & _ & _ & ->).
  cbn [forecast_df time_sec].
  rewrite <- (index_max_perm _ _ (index_perm _ _ (sort_index_perm rows)))
    in Em.
  rewrite <- (index_max_perm _ _ (index_perm _ _ (sort_index_perm rows')))
    in Em'.
  assert (m = last) by congruence. assert (m' = last') by congruence.
  subst. now rewrite !normalize_day, Hday, HD.
Qed.

Lemma forecast_dates_by_day_witness :
  exists o o',
    core repeat_last inputs60 [(3 * DAY + 1, Fin 1)] = Ok o /\
    core repeat_last inputs60 [(0, Fin 5); (4 * DAY - 1, Fin 2)] = Ok o' /\
    time_sec (forecast_df o) = time_sec (forecast_df o').
Proof.
  destruct (core repeat_last inputs60 [(3 * DAY + 1, Fin 1)])
    as [o|e] eqn:E; [|vm_compute in E; discriminate E].
  destruct (core repeat_last inputs60 [(0, Fin 5); (4 * DAY - 1, Fin 2)])
    as [o'|e] eqn:E'; [|vm_compute in E'; discriminate E'].
  exists o, o'. split; [reflexivity|]. split; [reflexivity|].
  apply (forecast_dates_by_day repeat_last repeat_last inputs60 inputs60
           _ _ o o' (3 * DAY + 1) (4 * DAY - 1) E E');
    reflexivity.
Defined.

Lemma forecast_rows_columns (ts : list Timestamp) (raw adj : list float) :
  length ts = length raw -> length adj = length raw ->
  length (forecast_rows ts raw adj) = length raw /\
  map o_Forecast_raw (forecast_rows ts raw adj) = raw /\
  map o_Adjusted (forecast_rows ts raw adj) = adj /\
  Forall (fun r => o_Historical r = NaN) (forecast_rows ts raw adj).
Proof.
  revert raw adj. induction ts as [|t ts IH]; intros [|r raw] [|a adj] H1 H2;
    simpl in *; try discriminate.
  - repeat split; constructor.
  - destruct (IH raw adj) as (E1 & E2 & E3 & E4); [lia | lia |].
    repeat split; try (f_equal; assumption). constructor; [reflexivity | exact E4].
Qed.

(** X13. The output table of a run that reaches the output (lines 65-66)
    has one row per uploaded row followed by one row per forecast day.  The
    historical rows are the uploaded rows in sorted order, with no forecast
    columns; the forecast rows carry the whole raw and adjusted columns and
    no historical value. *)
Theorem output_table_shape (F : Series -> Z -> Z -> result (list float))
  (p : inputs) (rows : Series) (o : outcome) :
  core F p rows = Ok o ->
  let n := length rows in
  let hist := firstn n (output_df o) in
  let fc := skipn n (output_df o) in
  length (output_df o) = (n + length (Forecast_raw (forecast_df o)))%nat /\
  Permutation rows (map (fun r => (o_time_sec r, o_Historical r)) hist) /\
  Forall (fun r => o_Forecast_raw r = NaN /\ o_Adjusted r = NaN) hist /\
  map o_Forecast_raw fc = Forecast_raw (forecast_df o) /\
  map o_Adjusted fc = Adjusted (forecast_df o) /\
  Forall (fun r => o_Historical r = NaN) fc.
Proof.
  intros H. cbn zeta.
  destruct (core_inv _ _ _ _ H) as (m & raw & adj & _ & _ & Hl & Ha & ->).
  cbn [output_df forecast_df Forecast_raw Adjusted]. unfold concat.
  cbn [time_sec Forecast_raw Adjusted].
  pose proof (adjust_length _ _ _ _ _ Ha) as Hadj.
  destruct (forecast_rows_columns _ raw adj Hl Hadj) as (E1 & E2 & E3 & E4).
  assert (Hh : length (hist_df (sort_index rows)) = length rows).
  { unfold hist_df. now rewrite length_map, sort_index_length. }
  rewrite <- Hh at 2 3 4 5 6.
  rewrite firstn_app, skipn_app, Nat.sub_diag, firstn_all, skipn_all.
  cbn [firstn skipn app]. rewrite app_nil_r.
  split; [rewrite length_app; lia|]. split; [|split; [|auto]].
  - unfold hist_df. rewrite map_map. cbn [o_time_sec o_Historical].
    rewrite (map_ext _ (fun r => r)) by (intros []; reflexivity).
    rewrite map_id. apply sort_index_perm.
  - unfold hist_df. apply Forall_map, Forall_forall. intros r _. now split.
Qed.

Lemma output_table_shape_witness :
  exists o,
    core repeat_last inputs60 history60 = Ok o /\
    length (output_df o)
    = (length history60 + length (Forecast_raw (forecast_df o)))%nat /\
    map o_Adjusted (skipn (length history60) (output_df o))
    = Adjusted (forecast_df o).
Proof.
  destruct (core repeat_last inputs60 history60) as [o|e] eqn:E;
    [|vm_compute in E; discriminate E].
  exists o. split; [reflexivity|].
  pose proof (output_table_shape repeat_last inputs60 history60 o E) as H.
  cbn zeta in H. split; [apply H | apply H].
Defined.

(** ** The summary line *)

Module FormatFacts.
Import Ascii String Format.
Local Open Scope char_scope.

Lemma raw_digits_not_comma (d : Decimal.uint) :
  Forall (fun a => a <> ",")
    (list_ascii_of_string (DecimalString.NilEmpty.string_of_uint d)).
Proof. induction d; simpl; constructor; (discriminate || assumption). Qed.

Lemma digits_not_comma (d : Decimal.uint) :
  Forall (fun a => a <> ",") (digits d).
Proof.
  unfold digits. destruct d; try apply raw_digits_not_comma.
  simpl. repeat constructor. discriminate.
Qed.

Lemma digits_nonempty (d : Decimal.uint) : digits d <> [].
Proof. unfold digits. destruct d; simpl; discriminate. Qed.

Lemma commas_rev_filter (k : nat) (l : list ascii) :
  Forall (fun a => a <> ",") l ->
  filter (fun a => negb (Ascii.eqb a ",")) (commas_rev k l) = l.
Proof.
  intros H. revert k. induction H as [|d l Hd _ IH]; intros k; simpl.
  - reflexivity.
  - assert (E : negb (Ascii.eqb d ",") = true).
    { apply negb_true_iff. now apply Ascii.eqb_neq. }
    destruct (k =? 3)%nat; simpl; rewrite E, IH; reflexivity.
Qed.

Lemma group3_filter (ds : list ascii) :
  Forall (fun a => a <> ",") ds ->
  filter (fun a => negb (Ascii.eqb a ",")) (group3 ds) = ds.
Proof.
  intros H. unfold group3. rewrite filter_rev, commas_rev_filter.
  - apply rev_involutive.
  - now apply Forall_rev.
Qed.

Lemma commas_rev_nonempty (k : nat) (l : list ascii) :
  l <> [] -> commas_rev k l <> [].
Proof. destruct l; [congruence|]. simpl. destruct (k =? 3)%nat; discriminate. Qed.

Lemma commas_rev_last (k : nat) (l : list ascii) (x : ascii) :
  last (commas_rev k l) x = last l x.
Proof.
  revert k. induction l as [|d l IH]; intros k; [reflexivity|].
  destruct l as [|d' l].
  - simpl. destruct (k =? 3)%nat; reflexivity.
  - assert (N : forall j, commas_rev j (d' :: l) <> []).
    { intros j. now apply commas_rev_nonempty. }
    change (commas_rev k (d :: d' :: l))
      with (if (k =? 3)%nat then "," :: d :: commas_rev 1 (d' :: l)
            else d :: commas_rev (S k) (d' :: l)).
    change (last (d :: d' :: l) x) with (last (d' :: l) x).
    destruct (k =? 3)%nat.
    + specialize (N 1%nat). specialize (IH 1%nat).
      destruct (commas_rev 1 (d' :: l)); [congruence | exact IH].
    + specialize (N (S k)). specialize (IH (S k)).
      destruct (commas_rev (S k) (d' :: l)); [congruence | exact IH].
Qed.

Lemma commas_rev_positions (k : nat) (l : list ascii) (i : nat) (c : ascii) :
  (k <= 3)%nat -> Forall (fun a => a <> ",") l ->
  nth_error (commas_rev k l) i = Some c ->
  (c = "," <-> (i + k) mod 4 = 3)%nat.
Proof.
  intros Hk H. revert k i Hk.
  induction H as [|d l Hd _ IH]; intros k i Hk Hn.
  - destruct i; discriminate.
  - simpl in Hn. destruct (Nat.eqb_spec k 3) as [->|N].
    + destruct i as [|[|j]]; simpl in Hn.
      * injection Hn as <-. split; reflexivity.
      * injection Hn as <-. split; [contradiction | discriminate].
      * rewrite (IH 1%nat j ltac:(lia) Hn).
        replace (S (S j) + 3)%nat with (j + 1 + 1 * 4)%nat by lia.
        rewrite Nat.Div0.mod_add. reflexivity.
    + destruct i as [|j]; simpl in Hn.
      * injection Hn as <-. rewrite Nat.add_0_l, Nat.mod_small by lia.
        split; [contradiction | lia].
      * rewrite (IH (S k) j ltac:(lia) Hn).
        replace (S j + k)%nat with (j + S k)%nat by lia. reflexivity.
Qed.

Lemma group3_head (ds : list ascii) :
  Forall (fun a => a <> ",") ds -> hd_error (group3 ds) <> Some ",".
Proof.
  intros H. unfold group3.
  destruct ds as [|d ds]; [discriminate|].
  pose proof (commas_rev_last 0 (rev (d :: ds)) ",") as E.
  pose proof (commas_rev_nonempty 0 (rev (d :: ds))) as N.
  assert (Hr : rev (d :: ds) <> []).
  { simpl. intros E'. apply app_eq_nil in E'. destruct E'; discriminate. }
  specialize (N Hr).
  destruct (exists_last N) as (m & z & Em). rewrite Em in *.
  rewrite last_last in E. rewrite rev_app_distr. simpl.
  simpl rev in E. rewrite last_last in E. subst z.
  inversion H; subst. congruence.
Qed.

(** X14. The customer change written on the page (line 92) reads back as
    the number itself once the commas are dropped.  After the sign the text
    does not start with a comma, and counted from the right every fourth
    character, and no other, is a comma: groups of three digits. *)
Theorem format_comma_reads_back (n : Z) :
  int_of_str (remove_commas (format_comma n)) = Some n /\
  exists body,
    list_ascii_of_string (format_comma n)
    = (if (n <? 0)%Z then ["-"] else []) ++ body /\
    hd_error body <> Some "," /\
    forall i c,
      nth_error (rev body) i = Some c -> (c = "," <-> i mod 4 = 3)%nat.
Proof.
  assert (Hbody : forall d,
    hd_error (group3 (digits d)) <> Some "," /\
    forall i c,
      nth_error (rev (group3 (digits d))) i = Some c ->
      (c = "," <-> i mod 4 = 3)%nat).
  { intros d. split; [apply group3_head, digits_not_comma|].
    intros i c Hc. unfold group3 in Hc. rewrite rev_involutive in Hc.
    rewrite (commas_rev_positions 0 _ i c (Nat.le_0_l 3)
               (Forall_rev (digits_not_comma d)) Hc).
    now rewrite Nat.add_0_r. }
  assert (Hrm : remove_commas (format_comma n)
                = DecimalString.NilZero.string_of_int (Z.to_int n)).
  { unfold remove_commas, format_comma.
    destruct (Z.to_int n) as [d|d]; simpl;
      rewrite list_ascii_of_string_of_list_ascii,
        (group3_filter _ (digits_not_comma d));
      unfold digits; now rewrite string_of_list_ascii_of_string. }
  split.
  - unfold int_of_str. rewrite Hrm, DecimalString.NilZero.isi.
    + simpl. f_equal. apply DecimalZ.of_to.
    + destruct n; simpl; try discriminate.
      intros E. injection E as E. now apply DecimalPos.Unsigned.to_uint_nonnil in E.
    + destruct n; simpl; try discriminate.
      intros E. injection E as E. now apply DecimalPos.Unsigned.to_uint_nonnil in E.
  - unfold format_comma. destruct n as [|p|p].
    + exists (group3 (digits Decimal.zero)). split; [reflexivity | apply Hbody].
    + exists (group3 (digits (Pos.to_uint p))). split; [|apply Hbody].
      cbn [Z.to_int Z.ltb Z.compare app].
      now rewrite list_ascii_of_string_of_list_ascii.
    + exists (group3 (digits (Pos.to_uint p))). split; [|apply Hbody].
      cbn [Z.to_int Z.ltb Z.compare app list_ascii_of_string].
      now rewrite list_ascii_of_string_of_list_ascii.
Qed.
End FormatFacts.
